(** * Pre-processing cell of day-3/wordembeddings.ipynb

    A shallow embedding of the two code cells of the notebook that do
    work of their own: the cell that reads the corpus files into one
    string [raw], and the "Quick pre-processing" cell that turns [raw]
    into [list_of_list], a list of sentences, each a list of tokens.

    A Python 3 [str] is a sequence of Unicode code points, so strings are
    lists of code points here; [for ch in sent], [len], slicing and the
    string methods all work on code points. *)

From Stdlib Require Import List NArith Bool Arith Lia ZifyBool String Ascii.
Import ListNotations.

Local Open Scope N_scope.
Local Open Scope nat_scope.
Local Open Scope list_scope.

(** ** Strings *)

(** A character is a Unicode code point. *)
Definition char := N.

(** A Python string. *)
Definition str := list char.

(** An ASCII literal as a Python string. *)
Definition lit (s : string) : str := map N_of_ascii (list_ascii_of_string s).

(** Equality on strings, Python's [==]. *)
Fixpoint str_eqb (a b : str) : bool :=
  match a, b with
  | [], [] => true
  | x :: a', y :: b' => N.eqb x y && str_eqb a' b'
  | _, _ => false
  end.

(** [ch in s] for a one-character [ch] and a string [s]. *)
Definition char_in (ch : char) (s : str) : bool := existsb (N.eqb ch) s.

(** [x in l] for a string [x] and a list of strings [l]. *)
Definition str_in_list (x : str) (l : list str) : bool := existsb (str_eqb x) l.

(** [s.startswith(prefix)]. *)
Fixpoint startswith (s prefix : str) {struct prefix} : bool :=
  match prefix, s with
  | [], _ => true
  | p :: prefix', c :: s' => N.eqb c p && startswith s' prefix'
  | _ :: _, [] => false
  end.

(** [sub in s]: the substring test. *)
Fixpoint str_in (sub s : str) : bool :=
  match s with
  | [] => startswith [] sub
  | _ :: s' => startswith s sub || str_in sub s'
  end.

(** [s.count(ch)] for a one-character [ch]. *)
Definition count (s : str) (ch : char) : nat := List.length (filter (N.eqb ch) s).

(** ** str.replace

    [s.replace(old, new)] scans [s] from the left; wherever [old] starts
    it emits [new] and resumes after the occurrence, so that occurrences
    are replaced leftmost first and never overlap, and the replaced text
    is not scanned again.  [skip] counts the characters of an occurrence
    that are still to be passed over. *)
Fixpoint replace_from (old new : str) (skip : nat) (s : str) : str :=
  match s with
  | [] => []
  | c :: s' =>
      match skip with
      | S k => replace_from old new k s'
      | O =>
          if startswith s old
          then new ++ replace_from old new (List.length old - 1) s'
          else c :: replace_from old new 0 s'
      end
  end.

(** With an empty [old], Python puts [new] before every character and at
    the end. *)
Definition replace (s old new : str) : str :=
  match old with
  | [] => new ++ flat_map (fun c => c :: new) s
  | _ :: _ => replace_from old new 0 s
  end.

(** ** re.split on a character class

    [re.split(r'[...]', text)] for a pattern that is one character class:
    every character of the class ends the current piece and starts a new
    one, so two delimiters in a row, or one at either end of the text,
    give an empty piece. *)
Fixpoint re_split_class (cls : char -> bool) (text : str) : list str :=
  match text with
  | [] => [[]]
  | c :: text' =>
      if cls c then [] :: re_split_class cls text'
      else
        match re_split_class cls text' with
        | [] => [[c]]
        | piece :: pieces => (c :: piece) :: pieces
        end
  end.

(** ** Whitespace: str.strip() and str.split()

    The code points for which [str.isspace] holds; [strip()] and
    [split()] without arguments use this set. *)
Definition is_space (c : char) : bool :=
  ((9 <=? c) && (c <=? 13))%N
  || ((28 <=? c) && (c <=? 32))%N
  || (c =? 133)%N || (c =? 160)%N || (c =? 5760)%N
  || ((8192 <=? c) && (c <=? 8202))%N
  || (c =? 8232)%N || (c =? 8233)%N || (c =? 8239)%N
  || (c =? 8287)%N || (c =? 12288)%N.

Fixpoint lstrip (s : str) : str :=
  match s with
  | [] => []
  | c :: s' => if is_space c then lstrip s' else s
  end.

Definition rstrip (s : str) : str := rev (lstrip (rev s)).

(** [s.strip()]. *)
Definition strip (s : str) : str := rstrip (lstrip s).

(** [s.split()]: the maximal runs of characters that are not whitespace.
    [word] holds the characters of the current run, last one first. *)
Fixpoint split_from (word : str) (s : str) : list str :=
  match s with
  | [] => match word with [] => [] | _ :: _ => [rev word] end
  | c :: s' =>
      if is_space c
      then match word with
           | [] => split_from [] s'
           | _ :: _ => rev word :: split_from [] s'
           end
      else split_from (c :: word) s'
  end.

Definition split (s : str) : list str := split_from [] s.

(** [' '.join(words)]. *)
Fixpoint join_space (words : list str) : str :=
  match words with
  | [] => []
  | [w] => w
  | w :: ws => w ++ 32%N :: join_space ws
  end.

(** ** str.lower()

    Lowercasing reads the interpreter's Unicode character database: the
    full lowercase mapping of a code point (up to three code points), and
    the Cased and Case_Ignorable properties that decide the form of a
    lowercased capital sigma.  The database is a parameter of the model. *)
Record UnicodeDB : Type := {
  to_lower_full : char -> list char;
  is_cased : char -> bool;
  is_case_ignorable : char -> bool
}.

Definition CAPITAL_SIGMA : char := 931%N.
Definition FINAL_SIGMA : char := 962%N.
Definition SMALL_SIGMA : char := 963%N.

Section Lower.
Variable db : UnicodeDB.

(** The first character that is not case-ignorable, if any. *)
Definition first_not_ignorable (s : str) : option char :=
  find (fun c => negb (is_case_ignorable db c)) s.

(** A capital sigma is in final position when a cased letter comes
    before it and none comes after it, case-ignorable characters being
    skipped on both sides.  [before] is the text before the sigma, last
    character first. *)
Definition handle_capital_sigma (before after : str) : char :=
  let final_sigma :=
    match first_not_ignorable before with
    | Some c => is_cased db c
    | None => false
    end in
  let final_sigma :=
    final_sigma &&
    match first_not_ignorable after with
    | Some c => negb (is_cased db c)
    | None => true
    end in
  if final_sigma then FINAL_SIGMA else SMALL_SIGMA.

Definition lower_ucs4 (before : str) (c : char) (after : str) : list char :=
  if N.eqb c CAPITAL_SIGMA then [handle_capital_sigma before after]
  else to_lower_full db c.

Fixpoint lower_from (before : str) (s : str) : str :=
  match s with
  | [] => []
  | c :: s' => lower_ucs4 before c s' ++ lower_from (c :: before) s'
  end.

(** [s.lower()]. *)
Definition lower (s : str) : str := lower_from [] s.
End Lower.

(** ** The cell that reads the corpus

    [fnames] is the list that [glob.glob] returns (empty when nothing
    matches or the directory is missing) and [read fname] the decoded
    content of a file. *)
Definition read_corpus (read : str -> str) (fnames : list str) : str :=
  fold_left (fun raw fname => raw ++ read fname) fnames [].

(** ** The pre-processing cell *)

(** [string.punctuation]. *)
Definition punctuation : str :=
  lit "!" ++ [34%N] ++ lit "#$%&'()*+,-./:;<=>?@[\]^_`{|}~".

(** [special]: the left and right typographic double quotation marks. *)
Definition special : list str := [[8220%N]; [8221%N]].

(** [sent_boundary_pattern = r'[.?!]']. *)
Definition sent_boundary_pattern (ch : char) : bool :=
  char_in ch (lit ".?!").

(** [text = raw[1114:]]. *)
Definition header_strip (raw : str) : str := skipn 1114 raw.

(** The two abbreviation replacements. *)
Definition abbreviations (text : str) : str :=
  let text := replace text (lit "Mrs.") (lit "Mrs") in
  replace text (lit "Mr.") (lit "Mr").

(** The two line-break replacements. *)
Definition line_breaks (text : str) : str :=
  let text := replace text [10%N] (lit " ") in
  replace text [13%N] (lit " ").

(** "A few modifications before sentence segmentation". *)
Definition modifications (text : str) : str := line_breaks (abbreviations text).

(** [re.split(sent_boundary_pattern, text)]. *)
Definition sentence_segmentation (text : str) : list str :=
  re_split_class sent_boundary_pattern text.

(** [''.join([ch for ch in sent if ch not in punctuation and ch not in special])]. *)
Definition remove_punctuation (sent : str) : str :=
  filter (fun ch => negb (char_in ch punctuation) && negb (str_in_list [ch] special)) sent.

Section Preprocessing.
Variable db : UnicodeDB.

(** The cell from the sentence segmentation on. *)
Definition tokenize (text : str) : list (list str) :=
  let sentences := sentence_segmentation text in
  let sentences := map remove_punctuation sentences in
  let sentences := map (lower db) sentences in
  let sentences := map strip sentences in
  map split sentences.

(** The cell after the header has been cut off. *)
Definition preprocess (text : str) : list (list str) :=
  tokenize (modifications text).

(** The whole cell: the value of [list_of_list] for a given [raw]. *)
Definition list_of_list (raw : str) : list (list str) :=
  preprocess (header_strip raw).
End Preprocessing.

(** The number of sentence delimiters of a text. *)
Definition delimiters (text : str) : nat :=
  count text 46%N + count text 63%N + count text 33%N.

(** No sentence delimiter is directly followed by another one. *)
Fixpoint no_adjacent_delimiters (text : str) : bool :=
  match text with
  | [] => true
  | c :: text' =>
      negb (sent_boundary_pattern c &&
            match text' with [] => false | d :: _ => sent_boundary_pattern d end)
      && no_adjacent_delimiters text'
  end.

(** ** A fragment of the Unicode character database

    Basic Latin, Latin-1 Supplement, the Greek alphabet and the dotted
    capital I, which is the one code point whose lowercase form has two
    code points.  Everything else is left as it is. *)
Definition fragment_to_lower (c : char) : list char :=
  if ((65 <=? c) && (c <=? 90))%N then [(c + 32)%N]
  else if ((192 <=? c) && (c <=? 222) && negb (c =? 215))%N then [(c + 32)%N]
  else if (c =? 304)%N then [105%N; 775%N]
  else if ((913 <=? c) && (c <=? 939) && negb (c =? 930))%N then [(c + 32)%N]
  else [c].

Definition fragment_cased (c : char) : bool :=
  ((65 <=? c) && (c <=? 90))%N || ((97 <=? c) && (c <=? 122))%N
  || (c =? 170)%N || (c =? 181)%N || (c =? 186)%N
  || ((192 <=? c) && (c <=? 255) && negb (c =? 215) && negb (c =? 247))%N
  || (c =? 304)%N || (c =? 305)%N
  || ((913 <=? c) && (c <=? 939) && negb (c =? 930))%N
  || ((940 <=? c) && (c <=? 974))%N.

Definition fragment_case_ignorable (c : char) : bool :=
  (c =? 39)%N || (c =? 46)%N || (c =? 58)%N || (c =? 94)%N || (c =? 96)%N
  || (c =? 168)%N || (c =? 173)%N || (c =? 175)%N || (c =? 180)%N
  || (c =? 183)%N || (c =? 184)%N
  || ((768 <=? c) && (c <=? 879))%N
  || (c =? 8216)%N || (c =? 8217)%N.

Definition fragment_db : UnicodeDB :=
  {| to_lower_full := fragment_to_lower;
     is_cased := fragment_cased;
     is_case_ignorable := fragment_case_ignorable |}.

(** ** What the theorems ask of the character database *)

(** On Basic Latin, lowercasing maps A-Z to a-z and changes nothing else. *)
Definition ascii_lower (c : char) : char :=
  if ((65 <=? c) && (c <=? 90))%N then (c + 32)%N else c.

Definition ascii_lowering (db : UnicodeDB) : Prop :=
  forall c, (c < 128)%N -> to_lower_full db c = [ascii_lower c].

(** A code point is its own lowercase form. *)
Definition lower_fixed (db : UnicodeDB) (c : char) : Prop :=
  c <> CAPITAL_SIGMA /\ to_lower_full db c = [c].

(** The code points of a lowercase form are their own lowercase forms. *)
Definition lowering_stable (db : UnicodeDB) : Prop :=
  (forall c d, In d (to_lower_full db c) -> lower_fixed db d)
  /\ lower_fixed db FINAL_SIGMA /\ lower_fixed db SMALL_SIGMA.

(** The characters that the filter removes. *)
Definition removed (ch : char) : bool :=
  char_in ch punctuation || str_in_list [ch] special.

(** Lowercasing a character that the filter keeps gives no character that
    the filter removes. *)
Definition lowering_clean (db : UnicodeDB) : Prop :=
  forall c d, removed c = false -> In d (to_lower_full db c) -> removed d = false.

(** A word: a string that is not empty and has no whitespace. *)
Definition is_word (w : str) : Prop :=
  w <> [] /\ forall c, In c w -> is_space c = false.

(** ** Inputs of the examples *)

(** The text of the end-to-end example. *)
Definition example_text : str := lit "Mrs. Jones met Mr. Smith. They talked!".

(** A header of 1114 characters, as many as the cell cuts off. *)
Definition blank_header : str := repeat 32%N 1114.

(** The word "don’t", with the typographic apostrophe U+2019. *)
Definition dont : str := lit "don" ++ 8217%N :: lit "t".

(** The text “ΟΔΟΣ”, she said. with typographic quotation marks. *)
Definition quoted_text : str :=
  [8220; 927; 916; 927; 931; 8221; 44; 32]%N ++ lit "she said.".

(** The word οδος, with a final sigma. *)
Definition odos : str := [959; 948; 959; 962]%N.

(** ** Examples *)

Example punctuation_codes :
  punctuation =
  [33; 34; 35; 36; 37; 38; 39; 40; 41; 42; 43; 44; 45; 46; 47; 58; 59; 60;
   61; 62; 63; 64; 91; 92; 93; 94; 95; 96; 123; 124; 125; 126]%N.
Proof. reflexivity. Qed.

Example replace_leftmost :
  replace (lit "aaa") (lit "aa") (lit "b") = lit "ba".
Proof. reflexivity. Qed.

Example replace_empty_pattern :
  replace (lit "x") [] (lit "-") = lit "-x-".
Proof. reflexivity. Qed.

Example re_split_example :
  re_split_class sent_boundary_pattern (lit "a..b!") = [lit "a"; []; lit "b"; []].
Proof. reflexivity. Qed.

Example split_example :
  split (lit " a  b ") = [lit "a"; lit "b"] /\ split (lit "   ") = [].
Proof. split; reflexivity. Qed.

(** The output recorded under the cell, [list_of_list[:2]], for a text
    that goes on after the header as the corpus does. *)
Example recorded_output :
  firstn 2
    (list_of_list fragment_db
       (blank_header ++
        lit "ocate for civil rights. She attended the Academy for Negro Youth and was educated as a teacher. "))
  = [[lit "ocate"; lit "for"; lit "civil"; lit "rights"];
     [lit "she"; lit "attended"; lit "the"; lit "academy"; lit "for";
      lit "negro"; lit "youth"; lit "and"; lit "was"; lit "educated";
      lit "as"; lit "a"; lit "teacher"]].
Proof. vm_compute; reflexivity. Qed.

Example lower_sigma_example :
  lower fragment_db [65; 931]%N = [97; 962]%N
  /\ lower fragment_db [931]%N = [963]%N
  /\ lower fragment_db [65; 931; 66]%N = [97; 963; 98]%N
  /\ lower fragment_db [65; 39; 931]%N = [97; 39; 962]%N
  /\ lower fragment_db [304]%N = [105; 775]%N.
Proof. repeat split; reflexivity. Qed.

(** * Properties *)

(** ** Prefixes and substrings *)

Lemma startswith_nil (s : str) : startswith s [] = true.
Proof. destruct s; reflexivity. Qed.

Lemma startswith_app (s p q : str) :
  startswith s (p ++ q) = true -> startswith s p = true.
Proof.
  revert s; induction p as [|x p IH]; intros s H; [destruct s; reflexivity|].
  destruct s as [|c s]; simpl in *; [discriminate|].
  apply andb_true_iff in H as [-> H]; simpl; auto.
Qed.

Lemma str_in_tail (sub : str) (c : char) (s : str) :
  str_in sub (c :: s) = false -> str_in sub s = false.
Proof.
  change (str_in sub (c :: s)) with (startswith (c :: s) sub || str_in sub s).
  intros H; apply orb_false_iff in H; tauto.
Qed.

Lemma str_in_skipn (sub : str) (n : nat) (s : str) :
  str_in sub s = false -> str_in sub (skipn n s) = false.
Proof.
  revert s; induction n as [|n IH]; intros s H; [exact H|].
  destruct s as [|c s]; [exact H|].
  simpl; apply IH; exact (str_in_tail sub c s H).
Qed.

Lemma str_in_head (sub : str) (s : str) :
  str_in sub s = false -> startswith s sub = false.
Proof.
  destruct s as [|c s]; [auto|].
  change (str_in sub (c :: s)) with (startswith (c :: s) sub || str_in sub s).
  intros H; apply orb_false_iff in H; tauto.
Qed.

(** ** str.replace *)

Lemma replace_from_skip (old new : str) (k : nat) (s : str) :
  replace_from old new k s = replace_from old new 0 (skipn k s).
Proof.
  revert k; induction s as [|c s IH]; intros [|k]; try reflexivity.
  simpl skipn; rewrite <- IH; reflexivity.
Qed.

Lemma replace_from_match (old new : str) (s : str) :
  startswith s old = true -> old <> [] ->
  replace_from old new 0 s = new ++ replace_from old new 0 (skipn (List.length old) s).
Proof.
  intros H Hold; destruct s as [|c s].
  - destruct old; [congruence | discriminate].
  - simpl replace_from; simpl in H; rewrite H.
    rewrite replace_from_skip; destruct old as [|o old]; [congruence|].
    simpl; rewrite Nat.sub_0_r; reflexivity.
Qed.

Lemma replace_from_no_match (old new : str) (c : char) (s : str) :
  startswith (c :: s) old = false ->
  replace_from old new 0 (c :: s) = c :: replace_from old new 0 s.
Proof. intros H; simpl replace_from; simpl in H; rewrite H; reflexivity. Qed.

(** A string without an occurrence of [old] is left as it is. *)
Lemma replace_from_absent (old new : str) (s : str) :
  str_in old s = false -> replace_from old new 0 s = s.
Proof.
  induction s as [|c s IH]; intros H; [reflexivity|].
  rewrite replace_from_no_match by (apply str_in_head; exact H).
  rewrite IH; [reflexivity | exact (str_in_tail old c s H)].
Qed.

(** When [old] and [new] start with the same character [m], a word
    without [m] starts the result exactly when it starts the input. *)
Lemma replace_from_startswith (m : char) (old new : str) (w s : str) :
  char_in m w = false ->
  startswith (replace_from (m :: old) (m :: new) 0 s) w = startswith s w.
Proof.
  revert s; induction w as [|x w IH]; intros s Hw.
  - rewrite !startswith_nil; reflexivity.
  - simpl in Hw; apply orb_false_iff in Hw as [Hx Hw].
    destruct s as [|c s]; [reflexivity|].
    destruct (startswith (c :: s) (m :: old)) eqn:E.
    + simpl replace_from; simpl in E; rewrite E.
      apply andb_true_iff in E as [Ec _]; apply N.eqb_eq in Ec; subst c.
      simpl; rewrite Hx; reflexivity.
    + rewrite replace_from_no_match by exact E.
      simpl; rewrite IH by exact Hw; reflexivity.
Qed.

Lemma startswith_split (s p : str) :
  startswith s p = true -> exists s', s = p ++ s'.
Proof.
  revert s; induction p as [|x p IH]; intros s H; [exists s; reflexivity|].
  destruct s as [|c s]; simpl in H; [discriminate|].
  apply andb_true_iff in H as [Hc H]; apply N.eqb_eq in Hc; subst c.
  destruct (IH s H) as [s' ->]; exists s'; reflexivity.
Qed.

Lemma startswith_app_false (s p q : str) :
  startswith s p = false -> startswith s (p ++ q) = false.
Proof.
  intros H; destruct (startswith s (p ++ q)) eqn:E; [|reflexivity].
  apply startswith_app in E; congruence.
Qed.

(** How a word [m :: w], with no further [m] in [w], can start the result
    of a replacement whose [old] and [new] both start with [m]. *)
Lemma replace_from_head (m : char) (old new w s : str) :
  char_in m w = false ->
  startswith (replace_from (m :: old) (m :: new) 0 s) (m :: w) =
  if startswith s (m :: old)
  then startswith (new ++ replace_from (m :: old) (m :: new) 0
                            (skipn (S (List.length old)) s)) w
  else startswith s (m :: w).
Proof.
  intros Hw; destruct (startswith s (m :: old)) eqn:E.
  - rewrite replace_from_match by (exact E || discriminate).
    simpl; rewrite N.eqb_refl; reflexivity.
  - destruct s as [|c s]; [reflexivity|].
    rewrite replace_from_no_match by exact E.
    simpl; rewrite replace_from_startswith by exact Hw; reflexivity.
Qed.

Lemma str_in_app_skip (m : char) (w pre s : str) :
  char_in m pre = false ->
  str_in (m :: w) (pre ++ s) = str_in (m :: w) s.
Proof.
  induction pre as [|x pre IH]; intros H; [reflexivity|].
  simpl in H; apply orb_false_iff in H as [Hx H].
  simpl app.
  change (str_in (m :: w) (x :: pre ++ s))
    with (startswith (x :: pre ++ s) (m :: w) || str_in (m :: w) (pre ++ s)).
  rewrite IH by exact H.
  simpl startswith.
  rewrite N.eqb_sym in Hx; rewrite Hx; reflexivity.
Qed.

(** Occurrences in the result of a replacement: when a word [m :: w] can
    only start the result where one of the words [forbidden] starts the
    input, an input without the forbidden words gives a result without
    [m :: w]. *)
Lemma replace_from_str_in (m : char) (old new w : str) (forbidden : list str) :
  char_in m new = false ->
  (forall t, startswith (replace_from (m :: old) (m :: new) 0 t) (m :: w) = true ->
             existsb (startswith t) forbidden = true) ->
  forall t, Forall (fun f => str_in f t = false) forbidden ->
            str_in (m :: w) (replace_from (m :: old) (m :: new) 0 t) = false.
Proof.
  intros Hnew Hhead t.
  remember (List.length t) as n eqn:Hn.
  assert (Hle : List.length t <= n) by lia; clear Hn.
  revert t Hle; induction n as [|n IH]; intros t Hle Hforb.
  - destruct t; [reflexivity | simpl in Hle; lia].
  - destruct t as [|c t]; [reflexivity|].
    assert (Hstart : startswith (replace_from (m :: old) (m :: new) 0 (c :: t)) (m :: w) = false).
    { destruct (startswith _ (m :: w)) eqn:E; [|reflexivity].
      apply Hhead, existsb_exists in E as (f & Hf & Hsw).
      rewrite Forall_forall in Hforb; apply Hforb, str_in_head in Hf; congruence. }
    destruct (startswith (c :: t) (m :: old)) eqn:E.
    + rewrite replace_from_match in * by (exact E || discriminate).
      simpl app in *.
      match goal with |- str_in ?p (?x :: ?l) = false =>
        change (startswith (x :: l) p || str_in p l = false) end.
      rewrite Hstart, str_in_app_skip by exact Hnew.
      apply IH.
      * simpl in Hle |- *. pose proof (length_skipn (List.length old) t). lia.
      * eapply Forall_impl; [|exact Hforb].
        intros f Hf; apply str_in_skipn with (n := List.length (m :: old)) in Hf; exact Hf.
    + rewrite replace_from_no_match in * by exact E.
      match goal with |- str_in ?p (?x :: ?l) = false =>
        change (startswith (x :: l) p || str_in p l = false) end.
      rewrite Hstart; apply IH; [simpl in Hle; lia|].
      eapply Forall_impl; [|exact Hforb].
      intros f Hf; apply (str_in_tail f c t Hf).
Qed.

(** ** The abbreviation replacements *)

Lemma abbreviations_unfold (text : str) :
  abbreviations text =
  replace_from (lit "Mr.") (lit "Mr") 0 (replace_from (lit "Mrs.") (lit "Mrs") 0 text).
Proof. reflexivity. Qed.

(** Where "Mr." and "Mrs." can start the text after "Mr." was replaced. *)
Lemma Mr_head_Mr (t : str) :
  startswith (replace_from (lit "Mr.") (lit "Mr") 0 t) (lit "Mr.") = startswith t (lit "Mr..").
Proof.
  change (lit "Mr.") with (77%N :: lit "r."); change (lit "Mr") with (77%N :: lit "r").
  change (lit "Mr.") with (77%N :: lit "r.").
  rewrite replace_from_head by reflexivity.
  match goal with |- context [if ?b then _ else _] => destruct b eqn:E end.
  - apply startswith_split in E as [t' ->]; simpl.
    apply (replace_from_startswith 77%N (lit "r.") (lit "r") (lit ".")); reflexivity.
  - symmetry; apply (startswith_app_false t (lit "Mr.") (lit ".")); exact E.
Qed.

Lemma Mr_head_Mrs (t : str) :
  startswith (replace_from (lit "Mr.") (lit "Mr") 0 t) (lit "Mrs.") =
  startswith t (lit "Mrs.") || startswith t (lit "Mr.s.").
Proof.
  change (lit "Mr.") with (77%N :: lit "r."); change (lit "Mr") with (77%N :: lit "r").
  change (lit "Mrs.") with (77%N :: lit "rs.").
  rewrite replace_from_head by reflexivity.
  match goal with |- context [if ?b then _ else _] => destruct b eqn:E end.
  - apply startswith_split in E as [t' ->]; simpl.
    apply (replace_from_startswith 77%N (lit "r.") (lit "r") (lit "s.")); reflexivity.
  - assert (H : startswith t (lit "Mr.s.") = false)
      by (apply (startswith_app_false t (lit "Mr.") (lit "s.")); exact E).
    rewrite H, orb_false_r; reflexivity.
Qed.

(** Where "Mrs." can start the text after "Mrs." was replaced. *)
Lemma Mrs_head_Mrs (t : str) :
  startswith (replace_from (lit "Mrs.") (lit "Mrs") 0 t) (lit "Mrs.") =
  startswith t (lit "Mrs..").
Proof.
  change (lit "Mrs.") with (77%N :: lit "rs."); change (lit "Mrs") with (77%N :: lit "rs").
  change (lit "Mrs.") with (77%N :: lit "rs.").
  rewrite replace_from_head by reflexivity.
  match goal with |- context [if ?b then _ else _] => destruct b eqn:E end.
  - apply startswith_split in E as [t' ->]; simpl.
    apply (replace_from_startswith 77%N (lit "rs.") (lit "rs") (lit ".")); reflexivity.
  - symmetry; apply (startswith_app_false t (lit "Mrs.") (lit ".")); exact E.
Qed.

(** A word that parts from "Mrs" within its first three characters
    starts the text after the replacement of "Mrs." exactly where it
    started the text before. *)
Lemma Mrs_head_other (w : str) (t : str) :
  char_in 77%N w = false ->
  startswith (77%N :: w) (lit "Mrs") = false ->
  startswith (lit "Mrs") (77%N :: w) = false ->
  startswith (replace_from (lit "Mrs.") (lit "Mrs") 0 t) (77%N :: w) = startswith t (77%N :: w).
Proof.
  intros Hw H1 H2.
  change (lit "Mrs.") with (77%N :: lit "rs."); change (lit "Mrs") with (77%N :: lit "rs").
  rewrite replace_from_head by exact Hw.
  match goal with |- context [if ?b then _ else _] => destruct b eqn:E end;
    [|reflexivity].
  apply startswith_split in E as [t' ->].
  change (lit "Mrs") with [77; 114; 115]%N in *.
  change (lit "rs") with [114; 115]%N; change (lit "rs.") with [114; 115; 46]%N.
  cbn [skipn List.length app startswith] in *.
  rewrite N.eqb_refl in *; cbn [andb] in *.
  destruct w as [|x1 [|x2 w]]; cbn [startswith] in *; try discriminate.
  - destruct (N.eqb_spec 114 x1) as [<-|]; [discriminate | reflexivity].
  - destruct (N.eqb_spec 114 x1) as [<-|]; [|reflexivity].
    rewrite N.eqb_refl in H1; cbn [andb] in *.
    destruct (N.eqb_spec 115 x2) as [<-|]; [|reflexivity].
    rewrite N.eqb_refl in H1; discriminate.
Qed.

Lemma no_Mr_dot_after_Mr (t : str) :
  str_in (lit "Mr..") t = false ->
  str_in (lit "Mr.") (replace_from (lit "Mr.") (lit "Mr") 0 t) = false.
Proof.
  intros H.
  apply (replace_from_str_in 77%N (lit "r.") (lit "r") (lit "r.") [lit "Mr.."]);
    [reflexivity | | repeat constructor; exact H].
  intros u Hu; cbn [existsb].
  rewrite <- (Mr_head_Mr u), orb_false_r; exact Hu.
Qed.

Lemma no_Mrs_dot_after_Mr (t : str) :
  str_in (lit "Mrs.") t = false -> str_in (lit "Mr.s.") t = false ->
  str_in (lit "Mrs.") (replace_from (lit "Mr.") (lit "Mr") 0 t) = false.
Proof.
  intros H1 H2.
  apply (replace_from_str_in 77%N (lit "r.") (lit "r") (lit "rs.")
           [lit "Mrs."; lit "Mr.s."]);
    [reflexivity | | repeat constructor; assumption].
  intros u Hu; cbn [existsb].
  rewrite orb_false_r, <- (Mr_head_Mrs u); exact Hu.
Qed.

Lemma no_Mrs_dot_after_Mrs (t : str) :
  str_in (lit "Mrs..") t = false ->
  str_in (lit "Mrs.") (replace_from (lit "Mrs.") (lit "Mrs") 0 t) = false.
Proof.
  intros H.
  apply (replace_from_str_in 77%N (lit "rs.") (lit "rs") (lit "rs.") [lit "Mrs.."]);
    [reflexivity | | repeat constructor; exact H].
  intros u Hu; cbn [existsb].
  rewrite <- (Mrs_head_Mrs u), orb_false_r; exact Hu.
Qed.

Lemma no_other_after_Mrs (w : str) (t : str) :
  char_in 77%N w = false ->
  startswith (77%N :: w) (lit "Mrs") = false ->
  startswith (lit "Mrs") (77%N :: w) = false ->
  str_in (77%N :: w) t = false ->
  str_in (77%N :: w) (replace_from (lit "Mrs.") (lit "Mrs") 0 t) = false.
Proof.
  intros Hw H1 H2 H.
  apply (replace_from_str_in 77%N (lit "rs.") (lit "rs") w [77%N :: w]);
    [reflexivity | | repeat constructor; exact H].
  intros u Hu.
  cbn [existsb]; rewrite <- (Mrs_head_other w u Hw H1 H2), orb_false_r; exact Hu.
Qed.

(** C4, as the code has it: the two abbreviation replacements are
    idempotent on every text in which no "Mrs." and no "Mr." is directly
    followed by a second full stop and no "Mr." is directly followed by
    "s."; on such a text a second application changes nothing. *)
Theorem abbreviations_idempotent (text : str) :
  str_in (lit "Mrs..") text = false ->
  str_in (lit "Mr..") text = false ->
  str_in (lit "Mr.s.") text = false ->
  abbreviations (abbreviations text) = abbreviations text.
Proof.
  intros H1 H2 H3.
  rewrite !abbreviations_unfold.
  set (t := replace_from (lit "Mrs.") (lit "Mrs") 0 text).
  assert (T1 : str_in (lit "Mrs.") t = false) by (apply no_Mrs_dot_after_Mrs; exact H1).
  assert (T2 : str_in (lit "Mr..") t = false)
    by (apply (no_other_after_Mrs (lit "r..")); (reflexivity || exact H2)).
  assert (T3 : str_in (lit "Mr.s.") t = false)
    by (apply (no_other_after_Mrs (lit "r.s.")); (reflexivity || exact H3)).
  set (u := replace_from (lit "Mr.") (lit "Mr") 0 t).
  assert (U1 : str_in (lit "Mr.") u = false) by (apply no_Mr_dot_after_Mr; exact T2).
  assert (U2 : str_in (lit "Mrs.") u = false)
    by (apply no_Mrs_dot_after_Mr; assumption).
  rewrite (replace_from_absent (lit "Mrs.") (lit "Mrs") u U2).
  apply replace_from_absent; exact U1.
Qed.

Lemma abbreviations_idempotent_witness :
  str_in (lit "Mrs..") example_text = false
  /\ str_in (lit "Mr..") example_text = false
  /\ str_in (lit "Mr.s.") example_text = false
  /\ abbreviations (abbreviations example_text) = abbreviations example_text.
Proof.
  split; [reflexivity|].
  split; [reflexivity|].
  split; [reflexivity|].
  apply (abbreviations_idempotent example_text); reflexivity.
Defined.

(** C4, as the claim states it, fails: on "Mr.." the first application
    leaves "Mr.", from which the second one takes the full stop away. *)
Lemma abbreviations_not_idempotent :
  abbreviations (lit "Mr..") = lit "Mr."
  /\ abbreviations (abbreviations (lit "Mr..")) = lit "Mr"
  /\ abbreviations (abbreviations (lit "Mr..")) <> abbreviations (lit "Mr..").
Proof. split; [reflexivity | split; [reflexivity | discriminate]]. Qed.

(** ** Sentence segmentation *)

Lemma re_split_class_length (cls : char -> bool) (text : str) :
  List.length (re_split_class cls text) = S (List.length (filter cls text)).
Proof.
  induction text as [|c text IH]; [reflexivity|].
  simpl; destruct (cls c); simpl; [rewrite IH; reflexivity|].
  destruct (re_split_class cls text); simpl in *; lia.
Qed.

Lemma delimiters_filter (text : str) :
  List.length (filter sent_boundary_pattern text) = delimiters text.
Proof.
  unfold delimiters, count; induction text as [|c text IH]; [reflexivity|].
  cbn [filter].
  change (sent_boundary_pattern c) with ((c =? 46)%N || ((c =? 63)%N || ((c =? 33)%N || false))).
  rewrite (N.eqb_sym 46 c), (N.eqb_sym 63 c), (N.eqb_sym 33 c).
  destruct (N.eqb_spec c 46) as [->|]; [cbn; lia|].
  destruct (N.eqb_spec c 63) as [->|]; [cbn; lia|].
  destruct (N.eqb_spec c 33) as [->|]; cbn; lia.
Qed.

(** Replacing one character by one character is a character-wise map. *)
Lemma replace_char (s : str) (a b : char) :
  replace s [a] [b] = map (fun c => if N.eqb c a then b else c) s.
Proof.
  unfold replace; induction s as [|c s IH]; [reflexivity|].
  cbn [replace_from startswith List.length Nat.sub map].
  rewrite andb_true_r; destruct (N.eqb c a); cbn [app]; rewrite IH; reflexivity.
Qed.

Lemma filter_map_length (p : char -> bool) (f : char -> char) (s : str) :
  (forall c, p (f c) = p c) ->
  List.length (filter p (map f s)) = List.length (filter p s).
Proof.
  intros H; induction s as [|c s IH]; [reflexivity|].
  cbn [map filter]; rewrite H; destruct (p c); cbn [List.length]; rewrite IH; reflexivity.
Qed.

(** The line-break replacements neither add nor remove a delimiter. *)
Lemma line_breaks_delimiters (text : str) :
  List.length (filter sent_boundary_pattern (line_breaks text)) = delimiters text.
Proof.
  unfold line_breaks; change (lit " ") with [32%N].
  rewrite !replace_char, !filter_map_length; [apply delimiters_filter| |];
    intros c; destruct (N.eqb_spec c 10) as [->|]; try reflexivity;
    destruct (N.eqb_spec c 13) as [->|]; reflexivity.
Qed.

Lemma sentence_segmentation_length (text : str) :
  List.length (sentence_segmentation (modifications text)) =
  delimiters (abbreviations text) + 1.
Proof.
  unfold sentence_segmentation, modifications.
  rewrite re_split_class_length, line_breaks_delimiters; lia.
Qed.

Lemma tokenize_length (db : UnicodeDB) (text : str) :
  List.length (tokenize db text) = List.length (sentence_segmentation text).
Proof. unfold tokenize; rewrite !length_map; reflexivity. Qed.

Lemma list_of_list_length (db : UnicodeDB) (raw : str) :
  List.length (list_of_list db raw) = delimiters (abbreviations (header_strip raw)) + 1.
Proof.
  unfold list_of_list, preprocess.
  rewrite tokenize_length; apply sentence_segmentation_length.
Qed.

(** C6: the number of sentences is at most the number of the characters
    '.', '?' and '!' of the text after the abbreviation replacements,
    plus one, and equal to it when no delimiter is next to another one.
    (It is equal to it for every text.) *)
Theorem sentence_count (db : UnicodeDB) (raw : str) :
  let text := abbreviations (header_strip raw) in
  let sentences := sentence_segmentation (modifications (header_strip raw)) in
  List.length (list_of_list db raw) = List.length sentences
  /\ List.length sentences <= delimiters text + 1
  /\ (no_adjacent_delimiters text = true ->
      List.length sentences = delimiters text + 1).
Proof.
  cbv zeta; rewrite list_of_list_length, sentence_segmentation_length.
  split; [reflexivity | split; [lia | reflexivity]].
Qed.

Lemma sentence_count_witness :
  no_adjacent_delimiters
    (abbreviations (header_strip (repeat 32%N 1114 ++ lit "Mr. Smith came. He left!")))
  = true
  /\ List.length
       (sentence_segmentation
          (modifications (header_strip (repeat 32%N 1114 ++ lit "Mr. Smith came. He left!"))))
     = delimiters
         (abbreviations (header_strip (repeat 32%N 1114 ++ lit "Mr. Smith came. He left!")))
       + 1.
Proof.
  split; [vm_compute; reflexivity|].
  apply (sentence_count fragment_db
           (repeat 32%N 1114 ++ lit "Mr. Smith came. He left!")).
  vm_compute; reflexivity.
Defined.

(** ** The empty text *)

Lemma preprocess_nil (db : UnicodeDB) : preprocess db [] = [[]].
Proof. reflexivity. Qed.

Lemma header_strip_short (raw : str) :
  List.length raw <= 1114 -> header_strip raw = [].
Proof. intros H; apply skipn_all2; exact H. Qed.

(** C2, as the code has it: the cell gives a result for every string,
    the result always has at least one sentence, and on the empty string
    it is the list that holds one empty sentence. *)
Theorem list_of_list_total (db : UnicodeDB) :
  (forall raw, exists sent rest, list_of_list db raw = sent :: rest)
  /\ list_of_list db [] = [[]].
Proof.
  split; [|reflexivity].
  intros raw; pose proof (list_of_list_length db raw) as H.
  destruct (list_of_list db raw) as [|sent rest]; [simpl in H; lia|].
  exists sent, rest; reflexivity.
Qed.

(** C2, as the claim states it, fails: the empty string does not give the
    empty list of sentences. *)
Lemma list_of_list_empty_string_not_empty :
  list_of_list fragment_db [] <> [].
Proof. discriminate. Qed.

(** C7, as the code has it: with no file matched, [raw] is the empty
    string and [list_of_list] is the list that holds one empty sentence. *)
Theorem empty_directory (db : UnicodeDB) (read : str -> str) :
  read_corpus read [] = []
  /\ list_of_list db (read_corpus read []) = [[]].
Proof. split; reflexivity. Qed.

(** C7, as the claim states it, fails: with no file matched, the list of
    sentences is not empty. *)
Lemma empty_directory_not_empty :
  read_corpus (fun _ => lit "unread") [] = []
  /\ list_of_list fragment_db (read_corpus (fun _ => lit "unread") []) <> [].
Proof. split; [reflexivity | discriminate]. Qed.

(** C9: a [raw] of at most 1114 characters is cut away whole, and
    [list_of_list] is the list that holds one empty sentence, whatever
    [raw] contains. *)
Theorem short_raw_discarded (db : UnicodeDB) (raw : str) :
  List.length raw <= 1114 ->
  header_strip raw = [] /\ list_of_list db raw = [[]].
Proof.
  intros H; unfold list_of_list.
  rewrite (header_strip_short raw H); split; reflexivity.
Qed.

Lemma short_raw_discarded_witness :
  List.length (lit "Mrs. Jones met Mr. Smith. They talked!") <= 1114
  /\ list_of_list fragment_db (lit "Mrs. Jones met Mr. Smith. They talked!") = [[]].
Proof.
  assert (H : List.length (lit "Mrs. Jones met Mr. Smith. They talked!") <= 1114)
    by (vm_compute; lia).
  split; [exact H|].
  exact (proj2 (short_raw_discarded fragment_db
                  (lit "Mrs. Jones met Mr. Smith. They talked!") H)).
Defined.

(** ** Lowercasing *)

(** Without a capital sigma, lowercasing is the character-wise mapping. *)
Lemma lower_from_no_sigma (db : UnicodeDB) (s before : str) :
  char_in CAPITAL_SIGMA s = false ->
  lower_from db before s = flat_map (to_lower_full db) s.
Proof.
  revert before; induction s as [|c s IH]; intros before H; [reflexivity|].
  cbn [char_in existsb] in H; apply orb_false_iff in H as [Hc H].
  cbn [lower_from flat_map]; unfold lower_ucs4.
  rewrite N.eqb_sym, Hc, IH by exact H; reflexivity.
Qed.

Lemma lower_ascii (db : UnicodeDB) (s : str) :
  ascii_lowering db ->
  forallb (fun c => (c <? 128)%N) s = true ->
  lower db s = map ascii_lower s.
Proof.
  intros Hdb Hs; unfold lower.
  rewrite lower_from_no_sigma.
  - induction s as [|c s IH]; [reflexivity|].
    cbn [forallb] in Hs; apply andb_true_iff in Hs as [Hc Hs].
    cbn [flat_map map]; rewrite Hdb by (apply N.ltb_lt; exact Hc).
    rewrite IH by exact Hs; reflexivity.
  - induction s as [|c s IH]; [reflexivity|].
    cbn [forallb] in Hs; apply andb_true_iff in Hs as [Hc Hs].
    change (char_in CAPITAL_SIGMA (c :: s))
      with ((CAPITAL_SIGMA =? c)%N || char_in CAPITAL_SIGMA s).
    rewrite (IH Hs), orb_false_r.
    apply N.ltb_lt in Hc; apply N.eqb_neq; unfold CAPITAL_SIGMA; lia.
Qed.

(** Characters that are their own lowercase form. *)
Lemma lower_from_fixed (db : UnicodeDB) (s before : str) :
  (forall c, In c s -> lower_fixed db c) -> lower_from db before s = s.
Proof.
  revert before; induction s as [|c s IH]; intros before H; [reflexivity|].
  destruct (H c (or_introl eq_refl)) as [Hc Hlow].
  cbn [lower_from]; unfold lower_ucs4.
  apply N.eqb_neq in Hc; rewrite Hc, Hlow, IH; [reflexivity|].
  intros d Hd; apply H; right; exact Hd.
Qed.

(** Where the characters of a lowercased string come from. *)
Lemma lower_from_In (db : UnicodeDB) (s before : str) (d : char) :
  In d (lower_from db before s) ->
  d = FINAL_SIGMA \/ d = SMALL_SIGMA
  \/ exists c, In c s /\ In d (to_lower_full db c).
Proof.
  revert before; induction s as [|c s IH]; intros before H; [destruct H|].
  cbn [lower_from] in H; apply in_app_or in H as [H|H].
  - unfold lower_ucs4 in H; destruct (N.eqb c CAPITAL_SIGMA).
    + destruct H as [H|[]]; unfold handle_capital_sigma in H.
      destruct (_ && _) in H; auto.
    + right; right; exists c; split; [left; reflexivity | exact H].
  - destruct (IH _ H) as [?|[?|(c' & Hc' & Hd)]]; auto.
    right; right; exists c'; split; [right; exact Hc' | exact Hd].
Qed.

(** ** The example of the specification *)

Lemma header_strip_app (header text : str) :
  List.length header = 1114 -> header_strip (header ++ text) = text.
Proof.
  intros H; unfold header_strip.
  rewrite skipn_app, H, Nat.sub_diag, skipn_all2 by lia; reflexivity.
Qed.

Lemma preprocess_example (db : UnicodeDB) :
  ascii_lowering db ->
  preprocess db example_text =
  [[lit "mrs"; lit "jones"; lit "met"; lit "mr"; lit "smith"];
   [lit "they"; lit "talked"];
   []].
Proof.
  intros Hdb; unfold preprocess, tokenize.
  assert (E : map remove_punctuation (sentence_segmentation (modifications example_text))
              = [lit "Mrs Jones met Mr Smith"; lit " They talked"; []])
    by (vm_compute; reflexivity).
  rewrite E; cbn [map].
  rewrite !(lower_ascii db) by (exact Hdb || (vm_compute; reflexivity)).
  vm_compute; reflexivity.
Qed.

(** C1: on the text "Mrs. Jones met Mr. Smith. They talked!", taken with
    nothing cut off, the cell gives the three sentences
    [mrs jones met mr smith], [they talked] and the empty sentence; the
    whole cell gives them when the text comes after a header of 1114
    characters. *)
Theorem end_to_end_example (db : UnicodeDB) :
  ascii_lowering db ->
  abbreviations example_text = lit "Mrs Jones met Mr Smith. They talked!"
  /\ sentence_segmentation (modifications example_text)
     = [lit "Mrs Jones met Mr Smith"; lit " They talked"; []]
  /\ preprocess db (skipn 0 example_text)
     = [[lit "mrs"; lit "jones"; lit "met"; lit "mr"; lit "smith"];
        [lit "they"; lit "talked"];
        []]
  /\ (forall header, List.length header = 1114 ->
      list_of_list db (header ++ example_text)
      = [[lit "mrs"; lit "jones"; lit "met"; lit "mr"; lit "smith"];
         [lit "they"; lit "talked"];
         []]).
Proof.
  intros Hdb.
  split; [vm_compute; reflexivity|].
  split; [vm_compute; reflexivity|].
  split; [exact (preprocess_example db Hdb)|].
  intros header Hlen; unfold list_of_list.
  rewrite (header_strip_app header example_text Hlen).
  exact (preprocess_example db Hdb).
Qed.

(** ** The character database fragment *)

Lemma fragment_ascii_lowering : ascii_lowering fragment_db.
Proof.
  intros c Hc; cbn [to_lower_full fragment_db]; unfold fragment_to_lower, ascii_lower.
  destruct ((65 <=? c) && (c <=? 90))%N eqn:E1; [reflexivity|].
  destruct ((192 <=? c) && (c <=? 222) && negb (c =? 215))%N eqn:E2; [lia|].
  destruct (c =? 304)%N eqn:E3; [lia|].
  destruct ((913 <=? c) && (c <=? 939) && negb (c =? 930))%N eqn:E4; [lia|].
  reflexivity.
Qed.

Lemma end_to_end_example_witness :
  ascii_lowering fragment_db
  /\ preprocess fragment_db (skipn 0 example_text)
     = [[lit "mrs"; lit "jones"; lit "met"; lit "mr"; lit "smith"];
        [lit "they"; lit "talked"];
        []].
Proof.
  split; [exact fragment_ascii_lowering|].
  exact (proj1 (proj2 (proj2 (end_to_end_example fragment_db fragment_ascii_lowering)))).
Defined.

(** ** The typographic apostrophe *)

Lemma preprocess_dont (db : UnicodeDB) :
  ascii_lowering db -> to_lower_full db 8217%N = [8217%N] ->
  preprocess db dont = [[dont]].
Proof.
  intros Hdb Hfix; unfold preprocess, tokenize.
  assert (E : map remove_punctuation (sentence_segmentation (modifications dont)) = [dont])
    by (vm_compute; reflexivity).
  rewrite E; cbn [map]; unfold lower.
  rewrite lower_from_no_sigma by (vm_compute; reflexivity).
  change dont with [100; 111; 110; 8217; 116]%N.
  cbn [flat_map app]; rewrite Hfix, !Hdb by reflexivity.
  vm_compute; reflexivity.
Qed.

(** C10: [special] holds the two typographic double quotation marks and
    nothing else, and the typographic apostrophe U+2019 is neither in it
    nor in [punctuation]; so the cell gives a token with that character,
    "don’t", for the text "don’t" after a header of 1114 characters. *)
Theorem typographic_apostrophe_kept (db : UnicodeDB) :
  ascii_lowering db -> to_lower_full db 8217%N = [8217%N] ->
  special = [[8220%N]; [8221%N]]
  /\ char_in 8217%N punctuation = false
  /\ str_in_list [8217%N] special = false
  /\ list_of_list db (blank_header ++ dont) = [[dont]]
  /\ exists raw sent tok,
       In sent (list_of_list db raw) /\ In tok sent /\ In 8217%N tok.
Proof.
  intros Hdb Hfix.
  assert (H : list_of_list db (blank_header ++ dont) = [[dont]]).
  { unfold list_of_list.
    rewrite (header_strip_app blank_header dont) by apply repeat_length.
    exact (preprocess_dont db Hdb Hfix). }
  split; [reflexivity|].
  split; [reflexivity|].
  split; [reflexivity|].
  split; [exact H|].
  exists (blank_header ++ dont), [dont], dont; rewrite H.
  split; [left; reflexivity|].
  split; [left; reflexivity|].
  unfold dont; apply in_or_app; right; left; reflexivity.
Qed.

Lemma typographic_apostrophe_kept_witness :
  ascii_lowering fragment_db
  /\ to_lower_full fragment_db 8217%N = [8217%N]
  /\ list_of_list fragment_db (blank_header ++ dont) = [[dont]].
Proof.
  split; [exact fragment_ascii_lowering|].
  split; [reflexivity|].
  exact (proj1 (proj2 (proj2 (proj2
           (typographic_apostrophe_kept fragment_db fragment_ascii_lowering eq_refl))))).
Defined.

(** ** Tokenization *)

(** The tokens that [split] gives are words. *)
Lemma split_from_words (s word : str) :
  (forall c, In c word -> is_space c = false) ->
  Forall is_word (split_from word s).
Proof.
  revert word; induction s as [|c s IH]; intros word Hword.
  - destruct word as [|x word]; constructor; [|constructor].
    split.
    + intros E; apply (f_equal (@List.length char)) in E.
      rewrite length_rev in E; discriminate.
    + intros d Hd; apply Hword, in_rev; exact Hd.
  - cbn [split_from]; destruct (is_space c) eqn:Ec.
    + assert (Hrest : Forall is_word (split_from [] s)) by (apply IH; intros ? []).
      destruct word as [|x word]; [exact Hrest|].
      constructor; [|exact Hrest].
      split.
      * intros E; apply (f_equal (@List.length char)) in E.
        rewrite length_rev in E; discriminate.
      * intros d Hd; apply Hword, in_rev; exact Hd.
    + apply IH; intros d [<-|Hd]; [exact Ec | apply Hword; exact Hd].
Qed.

(** The characters of a token are characters of the string. *)
Lemma split_from_In (s word w : str) (c : char) :
  In w (split_from word s) -> In c w -> In c word \/ In c s.
Proof.
  revert word; induction s as [|x s IH]; intros word Hw Hc.
  - destruct word as [|y word]; [destruct Hw|].
    destruct Hw as [<-|[]]; left; apply in_rev; exact Hc.
  - cbn [split_from] in Hw; destruct (is_space x).
    + destruct word as [|y word].
      * destruct (IH [] Hw Hc) as [[]|H]; right; right; exact H.
      * destruct Hw as [<-|Hw]; [left; apply in_rev; exact Hc|].
        destruct (IH [] Hw Hc) as [[]|H]; right; right; exact H.
    + destruct (IH (x :: word) Hw Hc) as [[<-|H]|H]; auto.
      * right; left; reflexivity.
      * right; right; exact H.
Qed.

(** Reading a word extends the current run by it. *)
Lemma split_from_app_word (w word rest : str) :
  (forall c, In c w -> is_space c = false) ->
  split_from word (w ++ rest) = split_from (rev w ++ word) rest.
Proof.
  revert word; induction w as [|c w IH]; intros word Hw; [reflexivity|].
  cbn [app split_from]; rewrite (Hw c (or_introl eq_refl)).
  rewrite IH by (intros d Hd; apply Hw; right; exact Hd).
  cbn [rev]; rewrite <- app_assoc; reflexivity.
Qed.

(** Words joined by single spaces are split into the same words. *)
Lemma split_join_space (words : list str) :
  Forall is_word words -> split (join_space words) = words.
Proof.
  unfold split; induction words as [|w words IH]; intros H; [reflexivity|].
  inversion H as [|? ? [Hne Hsp] Hrest]; subst.
  assert (Hrev : exists x r, rev w = x :: r).
  { destruct (rev w) as [|x r] eqn:E; [|eauto].
    apply (f_equal (@rev char)) in E; rewrite rev_involutive in E; contradiction. }
  destruct Hrev as (x & r & Hrev).
  destruct words as [|w2 words].
  - cbn [join_space]; rewrite <- (app_nil_r w) at 1.
    rewrite split_from_app_word, app_nil_r by exact Hsp.
    cbn [split_from]; rewrite Hrev, <- Hrev, rev_involutive; reflexivity.
  - change (join_space (w :: w2 :: words)) with (w ++ 32%N :: join_space (w2 :: words)).
    rewrite split_from_app_word, app_nil_r by exact Hsp.
    cbn [split_from]; change (is_space 32%N) with true; cbn iota.
    rewrite Hrev, <- Hrev, rev_involutive, IH by exact Hrest; reflexivity.
Qed.

Lemma list_of_list_words (db : UnicodeDB) (raw : str) :
  Forall (Forall is_word) (list_of_list db raw).
Proof.
  unfold list_of_list, preprocess, tokenize.
  apply Forall_forall; intros sent Hsent.
  apply in_map_iff in Hsent as (s & <- & _).
  apply split_from_words; intros ? [].
Qed.

Lemma Forall_concat_words (sentences : list (list str)) :
  Forall (Forall is_word) sentences -> Forall is_word (List.concat sentences).
Proof.
  induction 1 as [|sent sentences Hsent _ IH]; [constructor|].
  cbn [List.concat]; apply Forall_app; split; assumption.
Qed.

(** C5: all the tokens of all the sentences, joined by single spaces and
    split on whitespace again, are the same tokens in the same order. *)
Theorem tokens_round_trip (db : UnicodeDB) (raw : str) :
  split (join_space (List.concat (list_of_list db raw))) = List.concat (list_of_list db raw).
Proof.
  apply split_join_space, Forall_concat_words, list_of_list_words.
Qed.

(** ** The filter and the characters of a token *)

Lemma lstrip_In (s : str) (c : char) : In c (lstrip s) -> In c s.
Proof.
  induction s as [|x s IH]; [auto|].
  cbn [lstrip]; destruct (is_space x); [right; auto | auto].
Qed.

Lemma strip_In (s : str) (c : char) : In c (strip s) -> In c s.
Proof.
  unfold strip, rstrip; intros H.
  apply lstrip_In; apply in_rev in H; apply lstrip_In in H.
  apply in_rev; exact H.
Qed.

Lemma remove_punctuation_In (s : str) (c : char) :
  In c (remove_punctuation s) -> removed c = false.
Proof.
  unfold remove_punctuation, removed; intros H.
  apply filter_In in H as [_ H]; apply andb_true_iff in H as [H1 H2].
  apply negb_true_iff in H1, H2; rewrite H1, H2; reflexivity.
Qed.

(** The characters that the filter removes, as ranges of code points. *)
Lemma removed_ranges (c : char) :
  removed c =
  (((33 <=? c) && (c <=? 47)) || ((58 <=? c) && (c <=? 64))
   || ((91 <=? c) && (c <=? 96)) || ((123 <=? c) && (c <=? 126))
   || (c =? 8220) || (c =? 8221))%N.
Proof.
  unfold removed, char_in, str_in_list, special.
  rewrite punctuation_codes; cbn [existsb str_eqb].
  repeat match goal with
         | |- context [N.eqb c ?k] =>
             destruct (N.eqb_spec c k) as [->|]; [reflexivity|]
         end.
  cbn [orb andb]; lia.
Qed.

(** The filter's test, from the two tests of the cell. *)
Lemma removed_false (c : char) :
  removed c = false ->
  char_in c punctuation = false /\ str_in_list [c] special = false.
Proof. unfold removed; intros H; apply orb_false_iff in H; exact H. Qed.

Lemma fragment_lowering_stable : lowering_stable fragment_db.
Proof.
  unfold lowering_stable, lower_fixed, CAPITAL_SIGMA, FINAL_SIGMA, SMALL_SIGMA.
  cbn [to_lower_full fragment_db].
  split; [|split; split; (discriminate || reflexivity)].
  intros c d; unfold fragment_to_lower at 1.
  repeat match goal with
         | |- context [In d (if ?b then _ else _)] => destruct b eqn:?
         end;
    cbn [In]; intros H; unfold fragment_to_lower;
    repeat match goal with
           | |- context [if ?b then _ else _] => destruct b eqn:?
           end;
    (split; [lia | (reflexivity || lia)]).
Qed.

Lemma fragment_lowering_clean : lowering_clean fragment_db.
Proof.
  intros c d; rewrite !removed_ranges.
  cbn [to_lower_full fragment_db]; unfold fragment_to_lower.
  repeat match goal with
         | |- context [In d (if ?b then _ else _)] => destruct b eqn:?
         end;
    cbn [In]; intros Hc H; lia.
Qed.

(** C3: every token of every sentence is non-empty, is left as it is by
    lowercasing, and has no character of [punctuation] and none of
    [special]. *)
Theorem tokens_clean (db : UnicodeDB) :
  lowering_stable db -> lowering_clean db ->
  forall raw sent tok,
    In sent (list_of_list db raw) -> In tok sent ->
    tok <> []
    /\ lower db tok = tok
    /\ forall ch, In ch tok ->
         char_in ch punctuation = false /\ str_in_list [ch] special = false.
Proof.
  intros (Hstable & Hfinal & Hsmall) Hclean raw sent tok Hsent Htok.
  assert (Hword : is_word tok).
  { pose proof (list_of_list_words db raw) as H.
    rewrite Forall_forall in H; specialize (H sent Hsent).
    rewrite Forall_forall in H; exact (H tok Htok). }
  unfold list_of_list, preprocess, tokenize in Hsent.
  apply in_map_iff in Hsent as (s3 & <- & Hs3).
  apply in_map_iff in Hs3 as (s2 & <- & Hs2).
  apply in_map_iff in Hs2 as (s1 & <- & Hs1).
  apply in_map_iff in Hs1 as (piece & <- & _).
  assert (Hch : forall ch, In ch tok -> lower_fixed db ch /\ removed ch = false).
  { intros ch Hin.
    destruct (split_from_In _ _ _ _ Htok Hin) as [[]|H].
    apply strip_In, lower_from_In in H as [->|[->|(c & Hc & Hd)]].
    - split; [exact Hfinal | reflexivity].
    - split; [exact Hsmall | reflexivity].
    - split; [exact (Hstable c ch Hd)|].
      apply (Hclean c ch); [|exact Hd].
      apply (remove_punctuation_In piece); exact Hc. }
  split; [exact (proj1 Hword)|].
  split.
  - apply lower_from_fixed; intros c Hc; exact (proj1 (Hch c Hc)).
  - intros ch Hin; apply removed_false; exact (proj2 (Hch ch Hin)).
Qed.

Lemma tokens_clean_witness :
  lowering_stable fragment_db
  /\ lowering_clean fragment_db
  /\ In [odos; lit "she"; lit "said"] (list_of_list fragment_db (blank_header ++ quoted_text))
  /\ In odos [odos; lit "she"; lit "said"]
  /\ odos <> []
  /\ lower fragment_db odos = odos
  /\ (forall ch, In ch odos ->
        char_in ch punctuation = false /\ str_in_list [ch] special = false).
Proof.
  assert (Hsent : In [odos; lit "she"; lit "said"]
                    (list_of_list fragment_db (blank_header ++ quoted_text)))
    by (vm_compute; left; reflexivity).
  assert (Htok : In odos [odos; lit "she"; lit "said"]) by (left; reflexivity).
  split; [exact fragment_lowering_stable|].
  split; [exact fragment_lowering_clean|].
  split; [exact Hsent|].
  split; [exact Htok|].
  exact (tokens_clean fragment_db fragment_lowering_stable fragment_lowering_clean
           (blank_header ++ quoted_text) [odos; lit "she"; lit "said"] odos Hsent Htok).
Defined.

(** * Further properties of the two cells *)

(** ** The corpus cell *)

Lemma fold_left_app_acc (read : str -> str) (fnames : list str) (acc : str) :
  fold_left (fun raw fname => raw ++ read fname) fnames acc
  = acc ++ List.concat (map read fnames).
Proof.
  revert acc; induction fnames as [|f fnames IH]; intros acc.
  - cbn; rewrite app_nil_r; reflexivity.
  - cbn [fold_left map List.concat]; rewrite IH, app_assoc; reflexivity.
Qed.

(** X1: [raw] is the contents of the files one after the other, in the
    order of [fnames], with nothing between them; reading two lists of
    files one after the other gives the two corpora joined. *)
Theorem read_corpus_concat (read : str -> str) (fnames more : list str) :
  read_corpus read fnames = List.concat (map read fnames)
  /\ read_corpus read (fnames ++ more)
     = read_corpus read fnames ++ read_corpus read more.
Proof.
  unfold read_corpus; rewrite !fold_left_app_acc; cbn [app].
  split; [reflexivity|].
  rewrite map_app, concat_app; reflexivity.
Qed.

Lemma header_strip_long (first rest : str) :
  1114 <= List.length first ->
  header_strip (first ++ rest) = header_strip first ++ rest.
Proof.
  intros H; unfold header_strip; rewrite skipn_app.
  replace (1114 - List.length first) with 0 by lia; reflexivity.
Qed.

(** X2: the cut of 1114 characters is made once, on the joined corpus:
    when the first file has at least 1114 characters, it alone loses its
    beginning, and every later file enters the text whole. *)
Theorem header_cut_first_file_only
  (db : UnicodeDB) (read : str -> str) (fname : str) (fnames : list str) :
  1114 <= List.length (read fname) ->
  list_of_list db (read_corpus read (fname :: fnames))
  = preprocess db (skipn 1114 (read fname) ++ List.concat (map read fnames)).
Proof.
  intros H; unfold list_of_list, read_corpus.
  rewrite fold_left_app_acc; cbn [app map List.concat].
  rewrite (header_strip_long (read fname) _ H); reflexivity.
Qed.

Lemma header_cut_first_file_only_witness :
  1114 <= List.length (blank_header ++ example_text)
  /\ list_of_list fragment_db
       (read_corpus (fun _ => blank_header ++ example_text) [lit "a.txt"; lit "b.txt"])
     = preprocess fragment_db
         (skipn 1114 (blank_header ++ example_text)
          ++ List.concat (map (fun _ => blank_header ++ example_text) [lit "b.txt"])).
Proof.
  assert (H : 1114 <= List.length (blank_header ++ example_text))
    by (vm_compute; lia).
  split; [exact H|].
  exact (header_cut_first_file_only fragment_db
           (fun _ => blank_header ++ example_text) (lit "a.txt") [lit "b.txt"] H).
Defined.

(** ** Replacement, by the cases of the scan *)

Lemma skipn_length_app (a b : str) : skipn (List.length a) (a ++ b) = b.
Proof. induction a as [|x a IH]; [reflexivity | exact IH]. Qed.

(** An induction principle that follows the scan of [replace_from]: the
    text is empty, or starts with an occurrence, or starts with a
    character at which no occurrence starts. *)
Lemma replace_from_cases (old new : str) (P : str -> str -> Prop) :
  old <> [] ->
  P [] [] ->
  (forall t r, P t r -> P (old ++ t) (new ++ r)) ->
  (forall c t r, startswith (c :: t) old = false -> P t r -> P (c :: t) (c :: r)) ->
  forall t, P t (replace_from old new 0 t).
Proof.
  intros Hold Hnil Hmatch Hstep t.
  remember (List.length t) as n eqn:Hn.
  assert (Hle : List.length t <= n) by lia; clear Hn.
  revert t Hle; induction n as [|n IH]; intros t Hle.
  - destruct t; [exact Hnil | simpl in Hle; lia].
  - destruct t as [|c t]; [exact Hnil|].
    destruct (startswith (c :: t) old) eqn:E.
    + rewrite replace_from_match by assumption.
      destruct (startswith_split _ _ E) as [t' Et]; rewrite Et, skipn_length_app.
      apply Hmatch, IH.
      apply (f_equal (@List.length char)) in Et; rewrite length_app in Et.
      destruct old; [congruence | simpl in *; lia].
    + rewrite replace_from_no_match by exact E.
      apply Hstep; [exact E | apply IH; simpl in Hle; lia].
Qed.

(** A replacement whose [new] has the same characters of a kind as its
    [old] keeps the characters of that kind, in their order. *)
Lemma replace_from_filter (p : char -> bool) (old new t : str) :
  old <> [] -> filter p new = filter p old ->
  filter p (replace_from old new 0 t) = filter p t.
Proof.
  intros Hold Hp; apply (replace_from_cases old new); [exact Hold|reflexivity| |].
  - intros u r IH; rewrite !filter_app, Hp, IH; reflexivity.
  - intros c u r _ IH; cbn [filter]; rewrite IH; reflexivity.
Qed.

Lemma replace_from_length (old new t : str) :
  old <> [] -> List.length new <= List.length old ->
  List.length (replace_from old new 0 t) <= List.length t.
Proof.
  intros Hold Hlen; apply (replace_from_cases old new); [exact Hold|reflexivity| |].
  - intros u r IH; rewrite !length_app; lia.
  - intros c u r _ IH; simpl; lia.
Qed.

Lemma abbreviations_filter (p : char -> bool) (text : str) :
  p 46%N = false -> filter p (abbreviations text) = filter p text.
Proof.
  intros Hp; rewrite abbreviations_unfold.
  rewrite !replace_from_filter; try reflexivity; try discriminate;
    cbn [lit list_ascii_of_string map filter]; cbn; rewrite Hp; reflexivity.
Qed.

Lemma replace_from_filter_le (p : char -> bool) (old new t : str) :
  old <> [] ->
  List.length (filter p new) <= List.length (filter p old) ->
  List.length (filter p (replace_from old new 0 t)) <= List.length (filter p t).
Proof.
  intros Hold Hp; apply (replace_from_cases old new); [exact Hold|reflexivity| |].
  - intros u r IH; rewrite !filter_app, !length_app; lia.
  - intros c u r _ IH; cbn [filter]; destruct (p c); simpl; lia.
Qed.

(** ** The abbreviation replacements, further *)

(** X3: the abbreviation replacements take full stops away and do nothing
    else: the characters other than '.' are the same, in the same order,
    before and after, and the text does not get longer. *)
Theorem abbreviations_only_remove_full_stops (text : str) :
  filter (fun c => negb (c =? 46)%N) (abbreviations text)
  = filter (fun c => negb (c =? 46)%N) text
  /\ List.length (abbreviations text) <= List.length text.
Proof.
  split; [apply abbreviations_filter; reflexivity|].
  rewrite abbreviations_unfold.
  etransitivity; [apply replace_from_length; [discriminate | simpl; lia]|].
  apply replace_from_length; [discriminate | simpl; lia].
Qed.

Lemma abbreviations_delimiters (text : str) :
  delimiters (abbreviations text) <= delimiters text.
Proof.
  unfold delimiters, count.
  pose proof (abbreviations_filter (N.eqb 63) text eq_refl) as E1.
  pose proof (abbreviations_filter (N.eqb 33) text eq_refl) as E2.
  assert (E3 : List.length (filter (N.eqb 46) (abbreviations text))
               <= List.length (filter (N.eqb 46) text)).
  { rewrite abbreviations_unfold.
    etransitivity; [apply replace_from_filter_le; [discriminate | cbn; lia]|].
    apply replace_from_filter_le; [discriminate | cbn; lia]. }
  unfold char in *; rewrite E1, E2; lia.
Qed.

Lemma abbreviations_absent (text : str) :
  str_in (lit "Mrs.") text = false -> str_in (lit "Mr.") text = false ->
  abbreviations text = text.
Proof.
  intros H1 H2; rewrite abbreviations_unfold.
  rewrite (replace_from_absent (lit "Mrs.") (lit "Mrs") text H1).
  apply replace_from_absent; exact H2.
Qed.

(** X4: the number of sentences is at most the number of the characters
    '.', '?' and '!' of the text as it is after the header, before any
    replacement, plus one; it is that number plus one when the text has
    no "Mrs." and no "Mr.". *)
Theorem sentence_count_raw (db : UnicodeDB) (raw : str) :
  List.length (list_of_list db raw) <= delimiters (header_strip raw) + 1
  /\ (str_in (lit "Mrs.") (header_strip raw) = false ->
      str_in (lit "Mr.") (header_strip raw) = false ->
      List.length (list_of_list db raw) = delimiters (header_strip raw) + 1).
Proof.
  rewrite list_of_list_length; split.
  - pose proof (abbreviations_delimiters (header_strip raw)); lia.
  - intros H1 H2; rewrite (abbreviations_absent _ H1 H2); reflexivity.
Qed.

Lemma sentence_count_raw_witness :
  str_in (lit "Mrs.") (header_strip (blank_header ++ lit "He came. She left!")) = false
  /\ str_in (lit "Mr.") (header_strip (blank_header ++ lit "He came. She left!")) = false
  /\ List.length (list_of_list fragment_db (blank_header ++ lit "He came. She left!"))
     = delimiters (header_strip (blank_header ++ lit "He came. She left!")) + 1.
Proof.
  assert (H1 : str_in (lit "Mrs.")
                 (header_strip (blank_header ++ lit "He came. She left!")) = false)
    by (vm_compute; reflexivity).
  assert (H2 : str_in (lit "Mr.")
                 (header_strip (blank_header ++ lit "He came. She left!")) = false)
    by (vm_compute; reflexivity).
  split; [exact H1|]. split; [exact H2|].
  exact (proj2 (sentence_count_raw fragment_db
                  (blank_header ++ lit "He came. She left!")) H1 H2).
Defined.

(** X5: on a text without "Mrs..", "Mr.." and "Mr.s.", no "Mrs." and no
    "Mr." is left after the abbreviation replacements, so that no
    sentence boundary is found at the full stop of an abbreviation. *)
Theorem abbreviations_leave_none (text : str) :
  str_in (lit "Mrs..") text = false ->
  str_in (lit "Mr..") text = false ->
  str_in (lit "Mr.s.") text = false ->
  str_in (lit "Mrs.") (abbreviations text) = false
  /\ str_in (lit "Mr.") (abbreviations text) = false.
Proof.
  intros H1 H2 H3; rewrite abbreviations_unfold.
  set (t := replace_from (lit "Mrs.") (lit "Mrs") 0 text).
  assert (T1 : str_in (lit "Mrs.") t = false) by (apply no_Mrs_dot_after_Mrs; exact H1).
  assert (T2 : str_in (lit "Mr..") t = false)
    by (apply (no_other_after_Mrs (lit "r..")); (reflexivity || exact H2)).
  assert (T3 : str_in (lit "Mr.s.") t = false)
    by (apply (no_other_after_Mrs (lit "r.s.")); (reflexivity || exact H3)).
  split; [apply no_Mrs_dot_after_Mr; assumption | apply no_Mr_dot_after_Mr; exact T2].
Qed.

Lemma abbreviations_leave_none_witness :
  str_in (lit "Mrs..") example_text = false
  /\ str_in (lit "Mr..") example_text = false
  /\ str_in (lit "Mr.s.") example_text = false
  /\ str_in (lit "Mrs.") (abbreviations example_text) = false
  /\ str_in (lit "Mr.") (abbreviations example_text) = false.
Proof.
  split; [reflexivity|]. split; [reflexivity|]. split; [reflexivity|].
  apply (abbreviations_leave_none example_text); reflexivity.
Defined.

(** ** The line-break replacements, further *)

Lemma char_in_map_absent (f : char -> char) (k : char) (text : str) :
  (forall c, f c <> k) -> char_in k (map f text) = false.
Proof.
  intros H; unfold char_in; induction text as [|c text IH]; [reflexivity|].
  cbn [map existsb]; rewrite IH, orb_false_r.
  apply N.eqb_neq; intros E; apply (H c); symmetry; exact E.
Qed.

Lemma line_breaks_map (text : str) :
  line_breaks text
  = map (fun c => if ((c =? 10) || (c =? 13))%N then 32%N else c) text.
Proof.
  unfold line_breaks; change (lit " ") with [32%N].
  rewrite !replace_char, map_map; apply map_ext; intros c.
  destruct (N.eqb_spec c 10) as [->|]; [reflexivity|].
  destruct (N.eqb_spec c 13) as [->|]; reflexivity.
Qed.

(** X6: the two line-break replacements put one space in the place of
    every line feed and every carriage return and leave every other
    character where it is; no line feed and no carriage return is left. *)
Theorem line_breaks_to_spaces (text : str) :
  line_breaks text
  = map (fun c => if ((c =? 10) || (c =? 13))%N then 32%N else c) text
  /\ char_in 10%N (line_breaks text) = false
  /\ char_in 13%N (line_breaks text) = false.
Proof.
  rewrite (line_breaks_map text); split; [reflexivity|].
  split; apply char_in_map_absent; intros c;
    destruct (N.eqb_spec c 10) as [->|]; cbn [orb]; try discriminate;
    destruct (N.eqb_spec c 13) as [->|]; try discriminate; assumption.
Qed.

(** ** Sentence segmentation, further *)

Lemma re_split_class_pieces (cls : char -> bool) (text : str) :
  Forall (fun piece => forallb (fun c => negb (cls c)) piece = true)
         (re_split_class cls text)
  /\ List.concat (re_split_class cls text) = filter (fun c => negb (cls c)) text.
Proof.
  induction text as [|c text [IH1 IH2]]; [split; [repeat constructor | reflexivity]|].
  cbn [re_split_class filter]; destruct (cls c) eqn:E; cbn [negb].
  - split; [constructor; [reflexivity | exact IH1] | exact IH2].
  - destruct (re_split_class cls text) as [|piece pieces].
    + split; [repeat constructor; cbn; rewrite E; reflexivity|].
      cbn in IH2 |- *; rewrite <- IH2; reflexivity.
    + inversion IH1 as [|? ? Hp Hps]; subst; split.
      * constructor; [cbn [forallb]; rewrite E, Hp; reflexivity | exact Hps].
      * cbn [List.concat app] in IH2 |- *; rewrite IH2; reflexivity.
Qed.

(** X7: no sentence that the segmentation gives has a '.', '?' or '!',
    and the sentences put together are the text without these three
    characters: the segmentation loses nothing else and keeps the order. *)
Theorem sentences_without_delimiters (text : str) :
  Forall (fun sent => forallb (fun c => negb (sent_boundary_pattern c)) sent = true)
         (sentence_segmentation text)
  /\ List.concat (sentence_segmentation text)
     = filter (fun c => negb (sent_boundary_pattern c)) text.
Proof. apply re_split_class_pieces. Qed.

Lemma re_split_class_not_nil (cls : char -> bool) (text : str) :
  re_split_class cls text <> [].
Proof.
  intros E; apply (f_equal (@List.length str)) in E.
  rewrite re_split_class_length in E; discriminate.
Qed.

Lemma re_split_class_app (cls : char -> bool) (a b : str) (d : char) :
  cls d = true ->
  re_split_class cls (a ++ d :: b) = re_split_class cls a ++ re_split_class cls b.
Proof.
  intros Hd; induction a as [|c a IH].
  - cbn [app re_split_class]; rewrite Hd; reflexivity.
  - cbn [app re_split_class]; rewrite IH; destruct (cls c); [reflexivity|].
    pose proof (re_split_class_not_nil cls a) as Hne.
    destruct (re_split_class cls a); [congruence | reflexivity].
Qed.

Lemma tokenize_cut (db : UnicodeDB) (before after : str) (d : char) :
  sent_boundary_pattern d = true ->
  tokenize db (before ++ d :: after) = tokenize db before ++ tokenize db after.
Proof.
  intros Hd; unfold tokenize, sentence_segmentation.
  rewrite (re_split_class_app _ _ _ _ Hd), !map_app; reflexivity.
Qed.

(** X8: sentences are worked on one by one: for a text cut at a '.', '?'
    or '!', the cell from the segmentation on gives the sentences of the
    part before the cut followed by the sentences of the part after it. *)
Theorem tokenize_app (db : UnicodeDB) (before after : str) (d : char) :
  sent_boundary_pattern d = true ->
  tokenize db (before ++ d :: after) = tokenize db before ++ tokenize db after.
Proof.
  intros Hd; unfold tokenize, sentence_segmentation.
  rewrite (re_split_class_app sent_boundary_pattern before after d Hd).
  rewrite !map_app; reflexivity.
Qed.

Lemma tokenize_app_witness :
  sent_boundary_pattern 63%N = true
  /\ tokenize fragment_db (lit "Who came" ++ 63%N :: lit " Mr Smith")
     = tokenize fragment_db (lit "Who came") ++ tokenize fragment_db (lit " Mr Smith").
Proof.
  split; [reflexivity|].
  apply (tokenize_app fragment_db (lit "Who came") (lit " Mr Smith") 63%N); reflexivity.
Defined.

(** ** A delimiter at the end *)

Lemma startswith_snoc (d : char) (p s : str) :
  char_in d p = false -> startswith (s ++ [d]) p = startswith s p.
Proof.
  revert s; induction p as [|x p IH]; intros s H; [reflexivity|].
  cbn [char_in existsb] in H; apply orb_false_iff in H as [Hx H].
  destruct s as [|c s]; cbn [app startswith].
  - rewrite Hx; reflexivity.
  - rewrite (IH s H); reflexivity.
Qed.

Lemma startswith_self (p s : str) : startswith (p ++ s) p = true.
Proof.
  induction p as [|x p IH]; [reflexivity|].
  cbn [app startswith]; rewrite N.eqb_refl, IH; reflexivity.
Qed.

(** A character that is not in [old], put at the end of the text, stays
    at the end of the result. *)
Lemma replace_from_snoc (old new t : str) (d : char) :
  old <> [] -> char_in d old = false ->
  replace_from old new 0 (t ++ [d]) = replace_from old new 0 t ++ [d].
Proof.
  intros Hold Hd; revert t.
  apply (replace_from_cases old new
           (fun t r => replace_from old new 0 (t ++ [d]) = r ++ [d]));
    [exact Hold| | |]; cbn beta.
  - cbn [app]; rewrite replace_from_no_match; [reflexivity|].
    rewrite <- (app_nil_l [d]), (startswith_snoc d old [] Hd).
    destruct old; [congruence | reflexivity].
  - intros u r IH; rewrite <- app_assoc.
    rewrite replace_from_match by (apply startswith_self || exact Hold).
    rewrite skipn_length_app, IH, app_assoc; reflexivity.
  - intros c u r E IH; cbn [app].
    rewrite replace_from_no_match
      by (change (c :: u ++ [d]) with ((c :: u) ++ [d]);
          rewrite (startswith_snoc d old (c :: u) Hd); exact E).
    rewrite IH; reflexivity.
Qed.

Lemma modifications_snoc (text : str) (d : char) :
  d = 63%N \/ d = 33%N ->
  modifications (text ++ [d]) = modifications text ++ [d].
Proof.
  intros Hd; unfold modifications.
  rewrite !line_breaks_map, !abbreviations_unfold.
  rewrite !replace_from_snoc, map_app
    by (discriminate || (destruct Hd as [->| ->]; reflexivity)).
  destruct Hd as [->| ->]; reflexivity.
Qed.

(** X9: a '?' or a '!' put at the end of a [raw] that goes beyond the
    header adds one empty sentence at the end of [list_of_list] and
    leaves the sentences before it as they were. *)
Theorem closing_delimiter_adds_empty_sentence (db : UnicodeDB) (raw : str) (d : char) :
  1114 <= List.length raw ->
  d = 63%N \/ d = 33%N ->
  list_of_list db (raw ++ [d]) = list_of_list db raw ++ [[]].
Proof.
  intros Hlen Hd; unfold list_of_list, preprocess.
  rewrite (header_strip_long raw [d] Hlen), (modifications_snoc _ d Hd).
  rewrite (tokenize_cut db _ [] d) by (destruct Hd as [->| ->]; reflexivity).
  reflexivity.
Qed.

Lemma closing_delimiter_adds_empty_sentence_witness :
  1114 <= List.length (blank_header ++ lit "Who came")
  /\ list_of_list fragment_db ((blank_header ++ lit "Who came") ++ [63%N])
     = list_of_list fragment_db (blank_header ++ lit "Who came") ++ [[]].
Proof.
  assert (H : 1114 <= List.length (blank_header ++ lit "Who came"))
    by (vm_compute; lia).
  split; [exact H|].
  exact (closing_delimiter_adds_empty_sentence fragment_db
           (blank_header ++ lit "Who came") 63%N H (or_introl eq_refl)).
Defined.

(** ** Tokenization, further *)

Lemma split_from_concat (s word : str) :
  List.concat (split_from word s)
  = rev word ++ filter (fun c => negb (is_space c)) s.
Proof.
  revert word; induction s as [|c s IH]; intros word.
  - destruct word; cbn [split_from List.concat filter]; rewrite ?app_nil_r; reflexivity.
  - cbn [split_from filter]; destruct (is_space c); cbn [negb].
    + destruct word as [|x word]; cbn [List.concat]; rewrite IH; reflexivity.
    + rewrite IH; cbn [rev]; rewrite <- app_assoc; reflexivity.
Qed.

(** Whitespace at the end of a string does not change its tokens. *)
Lemma split_from_trailing (spaces s word : str) :
  forallb is_space spaces = true ->
  split_from word (s ++ spaces) = split_from word s.
Proof.
  intros Hsp; revert word; induction s as [|c s IH]; intros word.
  - cbn [app]; revert word; induction spaces as [|x spaces IHs]; intros word;
      [reflexivity|].
    cbn [forallb] in Hsp; apply andb_true_iff in Hsp as [Hx Hsp].
    cbn [split_from]; rewrite Hx, (IHs Hsp []); destruct word; reflexivity.
  - cbn [app split_from]; rewrite !IH; reflexivity.
Qed.

Lemma lstrip_split (s : str) :
  exists spaces, forallb is_space spaces = true /\ s = spaces ++ lstrip s.
Proof.
  induction s as [|c s (spaces & Hsp & E)]; [exists []; split; reflexivity|].
  cbn [lstrip]; destruct (is_space c) eqn:Ec.
  - exists (c :: spaces); split; [cbn [forallb]; rewrite Ec; exact Hsp|].
    cbn [app]; rewrite <- E; reflexivity.
  - exists []; split; reflexivity.
Qed.

Lemma split_from_leading (spaces s : str) :
  forallb is_space spaces = true ->
  split_from [] (spaces ++ s) = split_from [] s.
Proof.
  induction spaces as [|x spaces IH]; intros Hsp; [reflexivity|].
  cbn [forallb] in Hsp; apply andb_true_iff in Hsp as [Hx Hsp].
  cbn [app split_from]; rewrite Hx; exact (IH Hsp).
Qed.

Lemma forallb_rev (p : char -> bool) (l : str) :
  forallb p l = true -> forallb p (rev l) = true.
Proof.
  rewrite !forallb_forall; intros H x Hx; apply H, in_rev; exact Hx.
Qed.

Lemma split_strip (s : str) : split (strip s) = split s.
Proof.
  unfold split, strip, rstrip.
  destruct (lstrip_split s) as (lead & Hlead & Es).
  destruct (lstrip_split (rev (lstrip s))) as (trail & Htrail & Er).
  apply (f_equal (@rev char)) in Er; rewrite rev_involutive, rev_app_distr in Er.
  rewrite Es at 2; rewrite (split_from_leading lead _ Hlead).
  rewrite Er at 2; rewrite split_from_trailing by (apply forallb_rev; exact Htrail).
  reflexivity.
Qed.

Lemma tokenize_without_strip (db : UnicodeDB) (text : str) :
  tokenize db text
  = map split (map (lower db) (map remove_punctuation (sentence_segmentation text))).
Proof.
  unfold tokenize; rewrite (map_map strip split).
  apply map_ext; intros s; apply split_strip.
Qed.

(** X10: the line that strips the sentences changes nothing in the
    result: [list_of_list] is the same list when the sentences are split
    as they come out of the lowercasing. *)
Theorem strip_is_redundant (db : UnicodeDB) (text : str) :
  tokenize db text
  = map split (map (lower db) (map remove_punctuation (sentence_segmentation text))).
Proof.
  unfold tokenize; rewrite (map_map strip split).
  apply map_ext; intros sent; apply split_strip.
Qed.

(** X11: splitting loses nothing but whitespace: the tokens of a
    sentence, put together, are the characters of the filtered and
    lowercased sentence that are not whitespace, in their order; and no
    token has a whitespace character. *)
Theorem tokens_keep_all_but_whitespace (db : UnicodeDB) (raw : str) :
  map (@List.concat char) (list_of_list db raw)
  = map (fun sent => filter (fun c => negb (is_space c))
                       (lower db (remove_punctuation sent)))
        (sentence_segmentation (modifications (header_strip raw)))
  /\ (forall sent tok ch,
        In sent (list_of_list db raw) -> In tok sent -> In ch tok ->
        is_space ch = false).
Proof.
  split.
  - unfold list_of_list, preprocess; rewrite tokenize_without_strip, !map_map.
    apply map_ext; intros s; unfold split; rewrite split_from_concat; reflexivity.
  - intros sent tok ch Hsent Htok Hch.
    pose proof (list_of_list_words db raw) as H.
    rewrite Forall_forall in H; specialize (H sent Hsent).
    rewrite Forall_forall in H; exact (proj2 (H tok Htok) ch Hch).
Qed.

(** ** Punctuation inside a sentence *)

Lemma re_split_class_filter (cls keep : char -> bool) (text : str) :
  (forall c, cls c = true -> keep c = true) ->
  re_split_class cls (filter keep text) = map (filter keep) (re_split_class cls text).
Proof.
  intros H; induction text as [|c text IH]; [reflexivity|].
  cbn [filter re_split_class]; destruct (cls c) eqn:Ec.
  - rewrite (H c Ec); cbn [re_split_class map filter]; rewrite Ec, IH; reflexivity.
  - pose proof (re_split_class_not_nil cls text) as Hne.
    destruct (keep c) eqn:Ek.
    + cbn [re_split_class]; rewrite Ec, IH.
      destruct (re_split_class cls text) as [|piece pieces]; [congruence|].
      cbn [map filter]; rewrite Ek; reflexivity.
    + rewrite IH.
      destruct (re_split_class cls text) as [|piece pieces]; [congruence|].
      cbn [map filter]; rewrite Ek; reflexivity.
Qed.

Lemma filter_filter_weaker (p keep : char -> bool) (s : str) :
  (forall c, p c = true -> keep c = true) ->
  filter p (filter keep s) = filter p s.
Proof.
  intros H; induction s as [|c s IH]; [reflexivity|].
  cbn [filter]; destruct (keep c) eqn:Ek; cbn [filter]; rewrite IH.
  - reflexivity.
  - destruct (p c) eqn:Ep; [rewrite (H c Ep) in Ek; discriminate | reflexivity].
Qed.

(** X12: punctuation inside a sentence leaves no trace, not even a word
    boundary: taking out of the text every character of [punctuation]
    and of [special] other than '.', '?' and '!' does not change what
    the cell gives from the segmentation on. *)
Theorem inner_punctuation_is_invisible (db : UnicodeDB) (text : str) :
  tokenize db (filter (fun c => negb (removed c) || sent_boundary_pattern c) text)
  = tokenize db text.
Proof.
  unfold tokenize, sentence_segmentation.
  rewrite re_split_class_filter by (intros c Hc; rewrite Hc; apply orb_true_r).
  rewrite (map_map (filter _) remove_punctuation).
  f_equal; f_equal; f_equal; apply map_ext; intros s.
  unfold remove_punctuation; apply filter_filter_weaker.
  intros c Hc; apply andb_true_iff in Hc as [H1 H2].
  apply negb_true_iff in H1, H2; unfold removed; rewrite H1, H2; reflexivity.
Qed.

(** ** Upper and lower case *)

Lemma re_split_class_map (cls : char -> bool) (f : char -> char) (text : str) :
  (forall c, cls (f c) = cls c) ->
  re_split_class cls (map f text) = map (map f) (re_split_class cls text).
Proof.
  intros H; induction text as [|c text IH]; [reflexivity|].
  cbn [map re_split_class]; rewrite H, IH; destruct (cls c); [reflexivity|].
  pose proof (re_split_class_not_nil cls text) as Hne.
  destruct (re_split_class cls text); [congruence | reflexivity].
Qed.

Lemma filter_map_commute (p : char -> bool) (f : char -> char) (s : str) :
  (forall c, p (f c) = p c) -> filter p (map f s) = map f (filter p s).
Proof.
  intros H; induction s as [|c s IH]; [reflexivity|].
  cbn [map filter]; rewrite H, IH; destruct (p c); reflexivity.
Qed.

Lemma ascii_lower_removed (c : char) : removed (ascii_lower c) = removed c.
Proof.
  rewrite !removed_ranges; unfold ascii_lower.
  destruct ((65 <=? c) && (c <=? 90))%N eqn:E; lia.
Qed.

Lemma ascii_lower_boundary (c : char) :
  sent_boundary_pattern (ascii_lower c) = sent_boundary_pattern c.
Proof.
  unfold sent_boundary_pattern, char_in; change (lit ".?!") with [46; 63; 33]%N.
  cbn [existsb]; unfold ascii_lower.
  destruct ((65 <=? c) && (c <=? 90))%N eqn:E; lia.
Qed.

Lemma ascii_lower_idempotent (c : char) : ascii_lower (ascii_lower c) = ascii_lower c.
Proof.
  unfold ascii_lower.
  destruct ((65 <=? c) && (c <=? 90))%N eqn:E; [|rewrite E; reflexivity].
  destruct ((65 <=? c + 32) && (c + 32 <=? 90))%N eqn:E'; [lia | reflexivity].
Qed.

Lemma ascii_lower_below (c : char) : (c <? 128)%N = true -> (ascii_lower c <? 128)%N = true.
Proof.
  unfold ascii_lower; destruct ((65 <=? c) && (c <=? 90))%N eqn:E; lia.
Qed.

Lemma re_split_class_forallb (cls p : char -> bool) (text : str) :
  forallb p text = true ->
  Forall (fun piece => forallb p piece = true) (re_split_class cls text).
Proof.
  induction text as [|c text IH]; intros H; [repeat constructor|].
  cbn [forallb] in H; apply andb_true_iff in H as [Hc H]; specialize (IH H).
  cbn [re_split_class]; destruct (cls c); [constructor; [reflexivity | exact IH]|].
  destruct (re_split_class cls text) as [|piece pieces]; [repeat constructor; cbn; rewrite Hc; reflexivity|].
  inversion IH; subst; constructor; [cbn [forallb]; rewrite Hc; assumption | assumption].
Qed.

Lemma forallb_filter (p q : char -> bool) (s : str) :
  forallb p s = true -> forallb p (filter q s) = true.
Proof.
  rewrite !forallb_forall; intros H x Hx; apply filter_In in Hx as [Hx _]; auto.
Qed.

(** X13: from the segmentation on, the case of the letters A-Z does not
    count: for a text of Basic Latin characters, the cell gives the same
    sentences for the text and for the text with its capital letters
    made small beforehand. *)
Theorem tokenize_ignores_ascii_case (db : UnicodeDB) (text : str) :
  ascii_lowering db ->
  forallb (fun c => (c <? 128)%N) text = true ->
  tokenize db (map ascii_lower text) = tokenize db text.
Proof.
  intros Hdb Htext; unfold tokenize, sentence_segmentation.
  rewrite (re_split_class_map _ _ _ ascii_lower_boundary).
  pose proof (re_split_class_forallb sent_boundary_pattern _ text Htext) as Hpieces.
  f_equal; f_equal.
  induction Hpieces as [|piece pieces Hpiece _ IH]; [reflexivity|].
  cbn [map]; f_equal; [|exact IH].
  unfold remove_punctuation.
  rewrite filter_map_commute
    by (intros c; pose proof (ascii_lower_removed c) as E; unfold removed in E;
        rewrite <- !negb_orb, E; reflexivity).
  fold (remove_punctuation piece).
  assert (Hkept : forallb (fun c => (c <? 128)%N) (remove_punctuation piece) = true)
    by (apply forallb_filter; exact Hpiece).
  rewrite !(lower_ascii db) by
    (exact Hdb || exact Hkept ||
     (rewrite forallb_forall in *; intros x Hx; apply in_map_iff in Hx as (y & <- & Hy);
      apply ascii_lower_below, Hkept, Hy)).
  rewrite map_map; apply map_ext; intros c; apply ascii_lower_idempotent.
Qed.

Lemma tokenize_ignores_ascii_case_witness :
  ascii_lowering fragment_db
  /\ forallb (fun c => (c <? 128)%N) example_text = true
  /\ tokenize fragment_db (map ascii_lower example_text) = tokenize fragment_db example_text.
Proof.
  split; [exact fragment_ascii_lowering|].
  split; [reflexivity|].
  apply (tokenize_ignores_ascii_case fragment_db example_text fragment_ascii_lowering);
    reflexivity.
Defined.

Example hyphen_joins_words :
  tokenize fragment_db (lit "A well-known man, isn't he?")
  = [[lit "a"; lit "wellknown"; lit "man"; lit "isnt"; lit "he"]; []].
Proof. vm_compute; reflexivity. Qed.
